(** * The linear auction-step encoder of the auction-creation page

    A shallow embedding of [encodeLinearAuctionSteps] (the auction-creation
    page, lines 10-91) and of the wire format it targets, followed by the
    properties the specification states about it.

    TypeScript [bigint] values are unbounded integers and are modelled as [Z];
    [/] and [%] on [bigint] truncate towards zero, hence [Z.quot] and [Z.rem].
    The function throws [Error]s and writes to the console; both effects are
    kept, as a small console-and-exception monad. *)

From Stdlib Require Import ZArith List String Ascii Bool Lia DecimalString.
Import ListNotations.

Open Scope Z_scope.

(** ** Constants (lines 10-13) *)

Definition MPS_TOTAL : Z := 10000000.
Definition MAX_MPS : Z := Z.shiftl 1 24 - 1.
Definition MAX_BLOCK_DELTA : Z := Z.shiftl 1 40 - 1.

(** ** Data *)

(** The element type of [steps]: [{ mps: bigint; blockDelta: bigint }]. *)
Record Step : Type := mkStep { mps : Z; blockDelta : Z }.

(** The four [throw new Error(...)] sites of the function, in source order.
    The names are those of the specification's error taxonomy; the
    interpolated values are kept as arguments. *)
Inductive Error : Type :=
| InvalidDuration
| DurationTooLarge (durationInBlocks : Z)
| RateOverflow
| InternalInvariantViolation (totalMps : Z).

(** One [console.log] call.  Every [bigint] is logged through [toString()],
    so the payloads are strings. *)
Inductive LogLine : Type :=
| LogStepCalculation (durationInBlocks baseMps remainder : string)
| LogStepsCreated (rows : list (string * string * string))
| LogTotalMps (totalMps target : string) (isMatch : bool)
| LogEncodedSteps (encoded : string).

Definition Console : Type := list LogLine.

(** ** JavaScript primitives used by the function *)

Module Js.

(** [BigInt.prototype.toString()] in radix 10. *)
Definition toString10 (n : Z) : string :=
  NilZero.string_of_int (Z.to_int n).

Definition hexDigit (d : Z) : ascii :=
  match d with
  | 0 => "0" | 1 => "1" | 2 => "2" | 3 => "3"
  | 4 => "4" | 5 => "5" | 6 => "6" | 7 => "7"
  | 8 => "8" | 9 => "9" | 10 => "a" | 11 => "b"
  | 12 => "c" | 13 => "d" | 14 => "e" | _ => "f"
  end%char.

(** The hexadecimal digits of a non-negative [n], most significant first,
    pushed in front of [acc].  The recursion divides by 16 until the
    quotient is zero; [fuel] bounds the number of digits. *)
Fixpoint hexDigitsOnto (fuel : nat) (n : Z) (acc : string) : string :=
  match fuel with
  | O => acc
  | S fuel' =>
      let acc' := String (hexDigit (n mod 16)) acc in
      if n / 16 =? 0 then acc' else hexDigitsOnto fuel' (n / 16) acc'
  end.

(** A number has at most as many hexadecimal digits as binary ones. *)
Definition digitBound (n : Z) : nat := S (Z.to_nat (Z.log2 n)).

(** [BigInt.prototype.toString(16)]: lower-case digits, no leading zero,
    a minus sign for negative values. *)
Definition toString16 (n : Z) : string :=
  if n <? 0
  then String "-"%char (hexDigitsOnto (digitBound (- n)) (- n) EmptyString)
  else hexDigitsOnto (digitBound n) n EmptyString.

(** [fillLen] characters taken from [padString] repeated as often as needed;
    [rest] is what remains of the copy being consumed. *)
Fixpoint fillFrom (fillLen : nat) (rest padString : string) : string :=
  match fillLen with
  | O => EmptyString
  | S k =>
      match rest with
      | String c rest' => String c (fillFrom k rest' padString)
      | EmptyString =>
          match padString with
          | String c rest' => String c (fillFrom k rest' padString)
          | EmptyString => EmptyString
          end
      end
  end.

(** [String.prototype.padStart(targetLength, padString)]: the string is
    returned unchanged when it is already long enough or the filler is
    empty. *)
Definition padStart (targetLength : nat) (padString s : string) : string :=
  if (targetLength <=? String.length s)%nat then s
  else match padString with
       | EmptyString => s
       | _ => fillFrom (targetLength - String.length s) padString padString ++ s
       end%string.

End Js.

(** ** The console-and-exception monad *)

Definition Eff (A : Type) : Type := Console -> (Error + A) * Console.

Definition ret {A : Type} (a : A) : Eff A := fun c => (inr a, c).

Definition throw {A : Type} (e : Error) : Eff A := fun c => (inl e, c).

Definition bind {A B : Type} (m : Eff A) (k : A -> Eff B) : Eff B :=
  fun c =>
    match m c with
    | (inl e, c') => (inl e, c')
    | (inr a, c') => k a c'
    end.

Definition console_log (l : LogLine) : Eff unit :=
  fun c => (inr tt, c ++ [l]).

Notation "x <- m ;; k" := (bind m (fun x => k))
  (at level 61, m at next level, right associativity).
Notation "m ;;; k" := (bind m (fun _ => k))
  (at level 61, right associativity).

(** What the caller observes: the returned string or the thrown error. *)
Definition outcome {A : Type} (r : (Error + A) * Console) : Error + A := fst r.
(** What has been printed when the call ends. *)
Definition printed {A : Type} (r : (Error + A) * Console) : Console := snd r.

(** ** The encoder *)

(** Lines 46-61: the [steps] array built from [baseMps] and [remainder]. *)
Definition linearSteps (durationInBlocks baseMps remainder : Z) : list Step :=
  if remainder =? 0 then
    [ {| mps := baseMps; blockDelta := durationInBlocks |} ]
  else
    let blocksAtHigherMps := remainder in
    let blocksAtBaseMps := durationInBlocks - remainder in
    (if blocksAtBaseMps >? 0
     then [ {| mps := baseMps; blockDelta := blocksAtBaseMps |} ]
     else [])
    ++ [ {| mps := baseMps + 1; blockDelta := blocksAtHigherMps |} ].

(** Lines 64-67: the loop [totalMps += step.mps * step.blockDelta]. *)
Definition sumMps (steps : list Step) : Z :=
  fold_left (fun totalMps step => totalMps + mps step * blockDelta step) steps 0.

(** Line 83: a step packed into one integer. *)
Definition packedValue (step : Step) : Z :=
  Z.lor (Z.shiftl (mps step) 40) (blockDelta step).

(** Lines 81-86: the loop appending one padded hexadecimal word per step. *)
Definition encodeSteps (steps : list Step) : string :=
  fold_left
    (fun encoded step =>
       let hexValue := Js.padStart 16 "0" (Js.toString16 (packedValue step)) in
       (encoded ++ hexValue)%string)
    steps "0x"%string.

(** Lines 23-71: validation, construction of the steps and the total check. *)
Definition buildSteps (durationInBlocks : Z) : Eff (list Step) :=
  if durationInBlocks <=? 0 then throw InvalidDuration
  else if durationInBlocks >? MAX_BLOCK_DELTA
  then throw (DurationTooLarge durationInBlocks)
  else
    let baseMps := Z.quot MPS_TOTAL durationInBlocks in
    let remainder := Z.rem MPS_TOTAL durationInBlocks in
    if (baseMps >? MAX_MPS) || (baseMps + 1 >? MAX_MPS) then throw RateOverflow
    else
      console_log (LogStepCalculation (Js.toString10 durationInBlocks)
                                      (Js.toString10 baseMps)
                                      (Js.toString10 remainder)) ;;;
      let steps := linearSteps durationInBlocks baseMps remainder in
      let totalMps := sumMps steps in
      if negb (totalMps =? MPS_TOTAL)
      then throw (InternalInvariantViolation totalMps)
      else ret steps.

(** Lines 22-91: the whole function. *)
Definition encodeLinearAuctionSteps (durationInBlocks : Z) : Eff string :=
  steps <- buildSteps durationInBlocks ;;
  let totalMps := sumMps steps in
  console_log
    (LogStepsCreated
       (map (fun s => (Js.toString10 (mps s),
                       Js.toString10 (blockDelta s),
                       Js.toString10 (mps s * blockDelta s))) steps)) ;;;
  console_log (LogTotalMps (Js.toString10 totalMps) (Js.toString10 MPS_TOTAL)
                           (totalMps =? MPS_TOTAL)) ;;;
  let encoded := encodeSteps steps in
  console_log (LogEncodedSteps encoded) ;;;
  ret encoded.

(** The text of each thrown [Error]. *)
Definition message (e : Error) : string :=
  match e with
  | InvalidDuration => "Duration must be positive"
  | DurationTooLarge d =>
      "Duration " ++ Js.toString10 d ++ " exceeds maximum block delta ("
        ++ Js.toString10 MAX_BLOCK_DELTA ++ ")"
  | RateOverflow => "MPS value exceeds 24-bit maximum. Use a longer duration."
  | InternalInvariantViolation t =>
      "MPS total mismatch: " ++ Js.toString10 t ++ " !== "
        ++ Js.toString10 MPS_TOTAL
  end%string.

(** ** The wire format read by the auction contract

    The returned [`0x${string}`] denotes a byte string, two hexadecimal
    digits per byte.  The contract that consumes [auctionStepsData] is not part
    of the repository; the reader below follows the layout documented at the
    head of the function: one 8-byte big-endian word per step, the upper 24
    bits holding [mps] and the lower 40 bits [blockDelta]. *)

Module Wire.

(** The value of a hexadecimal digit, from its character code: ['0'..'9'],
    ['a'..'f'] or ['A'..'F']. *)
Definition hexValue (c : ascii) : option Z :=
  let code := Z.of_N (N_of_ascii c) in
  if (48 <=? code) && (code <=? 57) then Some (code - 48)
  else if (97 <=? code) && (code <=? 102) then Some (code - 87)
  else if (65 <=? code) && (code <=? 70) then Some (code - 55)
  else None.

(** Two digits per byte, high nibble first. *)
Fixpoint hexPairs (s : string) : option (list Z) :=
  match s with
  | EmptyString => Some []
  | String hi (String lo rest) =>
      match hexValue hi, hexValue lo, hexPairs rest with
      | Some h, Some l, Some bs => Some (16 * h + l :: bs)
      | _, _, _ => None
      end
  | String _ EmptyString => None
  end.

Definition hexToBytes (s : string) : option (list Z) :=
  match s with
  | String "0" (String "x" body) => hexPairs body
  | _ => None
  end.

(** The [width] low-order bytes of [v], most significant first, pushed in
    front of [acc]. *)
Fixpoint bigEndianOnto (width : nat) (v : Z) (acc : list Z) : list Z :=
  match width with
  | O => acc
  | S w => bigEndianOnto w (v / 256) (v mod 256 :: acc)
  end.

Definition bigEndian64 (v : Z) : list Z := bigEndianOnto 8 v [].

(** The [width] low-order hexadecimal digits of [v], most significant
    first, pushed in front of [acc]: the text of a fixed-width word. *)
Fixpoint fixedHexOnto (width : nat) (v : Z) (acc : string) : string :=
  match width with
  | O => acc
  | S w => fixedHexOnto w (v / 16) (String (Js.hexDigit (v mod 16)) acc)
  end.

Fixpoint zeros (n : nat) : string :=
  match n with
  | O => EmptyString
  | S k => String "0" (zeros k)
  end.

(** One sixteen-digit word per step, in step order. *)
Definition wordsText (steps : list Step) : string :=
  fold_right (fun s acc => fixedHexOnto 16 (packedValue s) acc)
             EmptyString steps.

(** The 8-byte record of a step. *)
Definition recordOf (step : Step) : list Z := bigEndian64 (packedValue step).

Definition wordOfBytes (bs : list Z) : Z :=
  fold_left (fun w b => w * 256 + b) bs 0.

(** Rate = top 24 bits, duration = low 40 bits of a 64-bit word. *)
Definition stepOfWord (w : Z) : Step :=
  {| mps := Z.shiftr w 40; blockDelta := Z.land w (Z.ones 40) |}.

Fixpoint decodeRecords (bs : list Z) : option (list Step) :=
  match bs with
  | [] => Some []
  | b0 :: b1 :: b2 :: b3 :: b4 :: b5 :: b6 :: b7 :: rest =>
      match decodeRecords rest with
      | Some steps =>
          Some (stepOfWord (wordOfBytes [b0; b1; b2; b3; b4; b5; b6; b7]) :: steps)
      | None => None
      end
  | _ => None
  end.

Definition decode (encoded : string) : option (list Step) :=
  match hexToBytes encoded with
  | Some bs => decodeRecords bs
  | None => None
  end.

End Wire.

(** ** Quantities the specification talks about *)

(** The rate every block receives at least: line 32. *)
Definition baseMpsOf (durationInBlocks : Z) : Z := Z.quot MPS_TOTAL durationInBlocks.

(** [sum(rateUnits[i] * durationUnits[i])] and [sum(durationUnits[i])] of
    the data model. *)
Definition sumRateDuration (steps : list Step) : Z :=
  fold_right (fun step acc => mps step * blockDelta step + acc) 0 steps.

Definition sumBlocks (steps : list Step) : Z :=
  fold_right (fun step acc => blockDelta step + acc) 0 steps.

(** The rate of the first step of a successful construction. *)
Definition firstRate (r : Error + list Step) : option Z :=
  match r with
  | inr (step :: _) => Some (mps step)
  | _ => None
  end.

(** Field widths of the data model: a 24-bit rate, a non-zero 40-bit duration. *)
Definition stepInRange (step : Step) : Prop :=
  0 <= mps step <= 16777215 /\ 1 <= blockDelta step <= 1099511627775.

(** The schedule as the specification words it, with [div] and [mod]. *)
Definition specSchedule (requestedDuration : Z) : list Step :=
  let baseRate := 10000000 / requestedDuration in
  let remainder := 10000000 mod requestedDuration in
  if remainder =? 0
  then [ {| mps := baseRate; blockDelta := requestedDuration |} ]
  else [ {| mps := baseRate; blockDelta := requestedDuration - remainder |};
         {| mps := baseRate + 1; blockDelta := remainder |} ].

(** ** The submit handler of the page (lines 137-304)

    [handleSubmit] reads the wallet state, the current block number and the
    form, derives the auction parameters and hands them to viem's ABI
    encoder and to the wallet.  The calls into viem and wagmi are outside the
    repository: the model takes what they return as inputs (the connection
    state, the block number, and the numbers [parseInt] and [parseEther]
    yield for the form fields) and ends where the parameters are handed to
    [encodeAbiParameters].  The handler's own [console.log] calls print the
    values computed here without influencing them and are left out; the
    encoder is run for its outcome. *)

Module Page.

(** Line 155: [BigInt(Math.floor((24 * 60 * 60) / 12))]. *)
Definition blocksPerDay : Z := (24 * 60 * 60) / 12.

(** Lines 166, 171 and 239. *)
Definition MIN_FLOOR_PRICE : Z := 4294967296.
Definition MIN_TICK_SPACING : Z := 2.
Definition MAX_UINT128 : Z := Z.shiftl 1 128 - 1.

(** Line 201: no validation hook. *)
Definition noHook : string := "0x0000000000000000000000000000000000000000".

(** The interface [AuctionParameters] of the ABI module. *)
Record AuctionParameters : Type := mkAuctionParameters {
  currency : string;
  tokensRecipient : string;
  fundsRecipient : string;
  startBlock : Z;
  endBlock : Z;
  claimBlock : Z;
  tickSpacing : Z;
  validationHook : string;
  floorPrice : Z;
  requiredCurrencyRaised : Z;
  auctionStepsData : string
}.

(** The form fields the handler reads, after [parseInt] (duration, in days)
    and [parseEther] (floor price and required amount, in wei). *)
Record FormValues : Type := mkFormValues {
  formCurrency : string;
  durationInDays : Z;
  userFloorPrice : Z;
  formRequiredRaised : Z
}.

(** The [alert] calls of the handler, in source order; the last one is the
    [catch] block, reached here by the errors the encoder throws. *)
Inductive Alert : Type :=
| ConnectWalletFirst
| NoBlockNumber
| ExceedsUint128
| ErrorAlert (e : Error).

Inductive SubmitResult : Type :=
| Alerted (a : Alert)
| Prepared (auctionParams : AuctionParameters).

(** Line 167. *)
Definition floorPriceFor (userFloorPrice : Z) : Z :=
  if userFloorPrice >? MIN_FLOOR_PRICE then userFloorPrice else MIN_FLOOR_PRICE.

(** Lines 172-175. *)
Definition tickSpacingFor (floorPrice : Z) : Z :=
  let tickSpacing := Z.quot floorPrice 100 in
  if tickSpacing <? MIN_TICK_SPACING then MIN_TICK_SPACING else tickSpacing.

(** Lines 140-243.  [!currentBlock] holds for [undefined] and for [0n]. *)
Definition handleSubmit (isConnected : bool) (address : option string)
    (currentBlock : option Z) (formData : FormValues) : SubmitResult :=
  match isConnected, address with
  | true, Some address =>
      match currentBlock with
      | None => Alerted NoBlockNumber
      | Some currentBlock =>
          if currentBlock =? 0 then Alerted NoBlockNumber
          else
            let durationInBlocks := blocksPerDay * durationInDays formData in
            let startBlock := currentBlock + 300 in
            let endBlock := startBlock + durationInBlocks in
            let claimBlock := endBlock + 100 in
            let floorPrice := floorPriceFor (userFloorPrice formData) in
            let tickSpacing := tickSpacingFor floorPrice in
            match outcome (encodeLinearAuctionSteps durationInBlocks []) with
            | inl e => Alerted (ErrorAlert e)
            | inr stepsData =>
                let auctionParams :=
                  {| currency := formCurrency formData;
                     tokensRecipient := address;
                     fundsRecipient := address;
                     startBlock := startBlock;
                     endBlock := endBlock;
                     claimBlock := claimBlock;
                     tickSpacing := tickSpacing;
                     validationHook := noHook;
                     floorPrice := floorPrice;
                     requiredCurrencyRaised := formRequiredRaised formData;
                     auctionStepsData := stepsData |} in
                if requiredCurrencyRaised auctionParams >? MAX_UINT128
                then Alerted ExceedsUint128
                else Prepared auctionParams
            end
      end
  | _, _ => Alerted ConnectWalletFirst
  end.

(** The longest duration, in days, whose block count fits the 40-bit field. *)
Definition maxDays : Z := Z.quot MAX_BLOCK_DELTA blocksPerDay.

End Page.

(** ** The auction address read from the creation receipt (lines 121-136) *)

Module Receipt.

(** A receipt log, as far as the page looks at it. *)
Record Log : Type := mkLog { topics : list string }.

(** [String.prototype.slice(start)] for a non-negative [start]: the string
    without its first [start] characters. *)
Fixpoint sliceFrom (start : nat) (s : string) : string :=
  match start, s with
  | O, _ => s
  | S k, String _ rest => sliceFrom k rest
  | S _, EmptyString => EmptyString
  end.

Section WithEventTopic.

(** [keccak256(toHex('AuctionCreated(address,address,uint256,bytes)'))];
    the hash function belongs to viem. *)
Variable auctionCreatedTopic : string.

(** The predicate given to [find] (lines 124-130): [topics[0]] is
    [undefined] for a log without topics. *)
Definition isAuctionCreated (log : Log) : bool :=
  match topics log with
  | topic0 :: _ => String.eqb topic0 auctionCreatedTopic
  | [] => false
  end.

(** Lines 123-135: the address passed to [setDeployedAuctionAddress], if
    any.  An absent or empty [topics[1]] is falsy. *)
Definition auctionAddressOf (logs : list Log) : option string :=
  match find isAuctionCreated logs with
  | Some auctionCreatedLog =>
      match nth_error (topics auctionCreatedLog) 1 with
      | Some EmptyString => None
      | Some topic1 => Some (String "0" (String "x" (sliceFrom 26 topic1)))
      | None => None
      end
  | None => None
  end.

End WithEventTopic.

End Receipt.

(** Every character of a string satisfies a test. *)
Fixpoint allChars (test : ascii -> bool) (s : string) : bool :=
  match s with
  | EmptyString => true
  | String ch rest => test ch && allChars test rest
  end.

(** A digit or a lower-case letter from a to f. *)
Definition isLowerHex (ch : ascii) : bool :=
  let code := Z.of_N (N_of_ascii ch) in
  ((48 <=? code) && (code <=? 57)) || ((97 <=? code) && (code <=? 102)).

(** * Proofs *)

(** ** Integer division of the fixed total *)

Section Division.

Variable d : Z.
Hypothesis d_valid : 1 <= d <= MAX_BLOCK_DELTA.

Lemma quot_is_div : Z.quot MPS_TOTAL d = MPS_TOTAL / d.
Proof. apply Z.quot_div_nonneg; unfold MPS_TOTAL; lia. Qed.

Lemma rem_is_mod : Z.rem MPS_TOTAL d = MPS_TOTAL mod d.
Proof. apply Z.rem_mod_nonneg; unfold MPS_TOTAL; lia. Qed.

Lemma division_identity :
  MPS_TOTAL = d * Z.quot MPS_TOTAL d + Z.rem MPS_TOTAL d.
Proof. apply Z.quot_rem'. Qed.

Lemma remainder_bounds : 0 <= Z.rem MPS_TOTAL d < d.
Proof. apply Z.rem_bound_pos; unfold MPS_TOTAL; lia. Qed.

Lemma baseMps_bounds : 0 <= Z.quot MPS_TOTAL d <= 10000000.
Proof.
  assert (0 <= Z.quot MPS_TOTAL d) by (apply Z.quot_pos; unfold MPS_TOTAL; lia).
  pose proof division_identity as E. pose proof remainder_bounds.
  unfold MPS_TOTAL at 1 in E. nia.
Qed.

(** The guard of line 36 is false: both rates fit the 24-bit field. *)
Lemma rate_guard_false :
  (Z.quot MPS_TOTAL d >? MAX_MPS) || (Z.quot MPS_TOTAL d + 1 >? MAX_MPS) = false.
Proof.
  pose proof baseMps_bounds as B.
  apply orb_false_intro; rewrite Z.gtb_ltb; apply Z.ltb_ge;
    change MAX_MPS with 16777215; lia.
Qed.

(** With a proper remainder both branches of lines 46-61 are the two-step
    schedule: the guard [blocksAtBaseMps > 0n] always holds. *)
Lemma linearSteps_cases :
  linearSteps d (Z.quot MPS_TOTAL d) (Z.rem MPS_TOTAL d) = specSchedule d.
Proof.
  unfold linearSteps, specSchedule. fold MPS_TOTAL.
  rewrite <- quot_is_div, <- rem_is_mod.
  pose proof remainder_bounds as R.
  destruct (Z.rem MPS_TOTAL d =? 0); [reflexivity|].
  cbv zeta.
  replace (d - Z.rem MPS_TOTAL d >? 0) with true; [reflexivity|].
  symmetry. rewrite Z.gtb_ltb. apply Z.ltb_lt. lia.
Qed.

Lemma sumMps_specSchedule : sumMps (specSchedule d) = MPS_TOTAL.
Proof.
  unfold specSchedule. fold MPS_TOTAL.
  rewrite <- quot_is_div, <- rem_is_mod.
  pose proof division_identity as E.
  destruct (Z.rem MPS_TOTAL d =? 0) eqn:Z0; unfold sumMps; cbn.
  - apply Z.eqb_eq in Z0. lia.
  - lia.
Qed.

Lemma sumRateDuration_specSchedule :
  sumRateDuration (specSchedule d) = 10000000.
Proof.
  unfold specSchedule. fold MPS_TOTAL.
  rewrite <- quot_is_div, <- rem_is_mod.
  pose proof division_identity as E.
  destruct (Z.rem MPS_TOTAL d =? 0) eqn:Z0;
    cbn [sumRateDuration fold_right mps blockDelta].
  - apply Z.eqb_eq in Z0. lia.
  - lia.
Qed.

Lemma sumBlocks_specSchedule : sumBlocks (specSchedule d) = d.
Proof.
  unfold specSchedule.
  destruct (10000000 mod d =? 0); cbn; lia.
Qed.

Lemma specSchedule_in_range : Forall stepInRange (specSchedule d).
Proof.
  unfold specSchedule. fold MPS_TOTAL.
  rewrite <- quot_is_div, <- rem_is_mod.
  pose proof baseMps_bounds as B. pose proof remainder_bounds as R.
  change MAX_BLOCK_DELTA with 1099511627775 in d_valid.
  destruct (Z.rem MPS_TOTAL d =? 0) eqn:Z0.
  - repeat constructor; cbn; lia.
  - apply Z.eqb_neq in Z0. repeat constructor; cbn; lia.
Qed.

Lemma specSchedule_length :
  List.length (specSchedule d) = 1%nat \/ List.length (specSchedule d) = 2%nat.
Proof.
  unfold specSchedule. destruct (10000000 mod d =? 0); cbn; auto.
Qed.

(** The run of [buildSteps] on a valid duration, in full. *)
Lemma buildSteps_valid (c : Console) :
  buildSteps d c =
    (inr (specSchedule d),
     c ++ [LogStepCalculation (Js.toString10 d)
                              (Js.toString10 (Z.quot MPS_TOTAL d))
                              (Js.toString10 (Z.rem MPS_TOTAL d))]).
Proof.
  unfold buildSteps.
  replace (d <=? 0) with false by (symmetry; apply Z.leb_gt; lia).
  replace (d >? MAX_BLOCK_DELTA) with false
    by (symmetry; rewrite Z.gtb_ltb; apply Z.ltb_ge; lia).
  cbv zeta. rewrite rate_guard_false, linearSteps_cases, sumMps_specSchedule.
  reflexivity.
Qed.

End Division.

(** ** Hexadecimal text *)

Section HexText.

Import Js Wire.

Lemma fillFrom_fresh_zeros (n : nat) : fillFrom n "" "0" = zeros n.
Proof. induction n as [|n IH]; cbn; [reflexivity | now rewrite IH]. Qed.

Lemma fillFrom_zeros (n : nat) : fillFrom n "0" "0" = zeros n.
Proof. destruct n; cbn; [reflexivity | now rewrite fillFrom_fresh_zeros]. Qed.

Lemma zeros_shift (n : nat) (s : string) :
  (zeros n ++ String "0" s = String "0" (zeros n ++ s))%string.
Proof. induction n as [|n IH]; cbn; [reflexivity | now rewrite IH]. Qed.

Lemma fixedHexOnto_zero (k : nat) (acc : string) :
  fixedHexOnto k 0 acc = (zeros k ++ acc)%string.
Proof.
  revert acc; induction k as [|k IH]; intros acc; cbn [fixedHexOnto].
  - reflexivity.
  - change (0 / 16) with 0. change (hexDigit (0 mod 16)) with "0"%char.
    rewrite IH. apply zeros_shift.
Qed.

Lemma fixedHexOnto_app (k : nat) (v : Z) (a b : string) :
  fixedHexOnto k v (a ++ b)%string = (fixedHexOnto k v a ++ b)%string.
Proof.
  revert v a; induction k as [|k IH]; intros v a; cbn [fixedHexOnto].
  - reflexivity.
  - now rewrite <- IH.
Qed.

Lemma fixedHexOnto_length (k : nat) (v : Z) (acc : string) :
  String.length (fixedHexOnto k v acc) = (k + String.length acc)%nat.
Proof.
  revert v acc; induction k as [|k IH]; intros v acc; cbn [fixedHexOnto].
  - reflexivity.
  - rewrite IH. cbn. lia.
Qed.

(** The digits [toString(16)] prints are the fixed-width digits without
    their leading zeros. *)
Lemma hexDigitsOnto_fixed (fuel : nat) :
  forall (k : nat) (v : Z) (acc : string),
    0 <= v < 16 ^ Z.of_nat k -> v < 16 ^ Z.of_nat fuel ->
    (0 < k)%nat -> (0 < fuel)%nat ->
    exists p : nat,
      fixedHexOnto k v acc = (zeros p ++ hexDigitsOnto fuel v acc)%string
      /\ (p + String.length (hexDigitsOnto fuel v acc)
          = k + String.length acc)%nat.
Proof.
  induction fuel as [|f IH]; intros k v acc Hk Hf Kpos Fpos; [lia|].
  destruct k as [|k]; [lia|].
  cbn [fixedHexOnto hexDigitsOnto]. cbv zeta.
  destruct (v / 16 =? 0) eqn:Q.
  - apply Z.eqb_eq in Q. rewrite Q, fixedHexOnto_zero.
    exists k. split; [reflexivity | cbn; lia].
  - apply Z.eqb_neq in Q.
    rewrite Nat2Z.inj_succ, Z.pow_succ_r in Hk, Hf by lia.
    assert (1 <= v / 16) by (pose proof (Z.div_pos v 16); lia).
    assert (v / 16 < 16 ^ Z.of_nat k)
      by (apply Z.div_lt_upper_bound; lia).
    assert (v / 16 < 16 ^ Z.of_nat f)
      by (apply Z.div_lt_upper_bound; lia).
    assert (0 < k)%nat by (destruct k; [cbn in *; lia | lia]).
    assert (0 < f)%nat by (destruct f; [cbn in *; lia | lia]).
    destruct (IH k (v / 16) (String (hexDigit (v mod 16)) acc))
      as (p & E & L); try lia.
    exists p. split; [exact E | cbn in L; lia].
Qed.

Lemma digitBound_enough (v : Z) :
  0 <= v -> v < 16 ^ Z.of_nat (digitBound v).
Proof.
  intros Hv. unfold digitBound.
  rewrite Nat2Z.inj_succ, Z2Nat.id by apply Z.log2_nonneg.
  destruct (Z.eq_dec v 0) as [->|Hnz].
  - reflexivity.
  - pose proof (Z.log2_spec v ltac:(lia)) as [_ Hlt].
    pose proof (Z.log2_nonneg v).
    assert (2 ^ Z.succ (Z.log2 v) <= 16 ^ Z.succ (Z.log2 v))
      by (apply Z.pow_le_mono_l; lia).
    lia.
Qed.

(** Line 84 on a 64-bit value: exactly sixteen digits. *)
Lemma padStart_toString16 (v : Z) :
  0 <= v < 2 ^ 64 ->
  padStart 16 "0" (toString16 v) = fixedHexOnto 16 v "".
Proof.
  intros Hv. unfold toString16.
  replace (v <? 0) with false by (symmetry; apply Z.ltb_ge; lia).
  destruct (hexDigitsOnto_fixed (digitBound v) 16 v "") as (p & E & L).
  - change (16 ^ Z.of_nat 16) with (2 ^ 64). lia.
  - apply digitBound_enough; lia.
  - lia.
  - unfold digitBound; lia.
  - rewrite E. cbn [String.length] in L. unfold padStart.
    destruct (16 <=? String.length (hexDigitsOnto (digitBound v) v ""))%nat eqn:Le.
    + apply Nat.leb_le in Le. assert (p = 0%nat) as -> by lia. reflexivity.
    + apply Nat.leb_gt in Le. rewrite fillFrom_zeros. f_equal. f_equal. lia.
Qed.

Lemma hexValue_hexDigit (x : Z) :
  0 <= x < 16 -> hexValue (hexDigit x) = Some x.
Proof.
  intros Hx.
  assert (x = 0 \/ x = 1 \/ x = 2 \/ x = 3 \/ x = 4 \/ x = 5 \/ x = 6 \/ x = 7
          \/ x = 8 \/ x = 9 \/ x = 10 \/ x = 11 \/ x = 12 \/ x = 13
          \/ x = 14 \/ x = 15) as C by lia.
  repeat (destruct C as [->|C]; [reflexivity|]). subst x. reflexivity.
Qed.

(** Reading hexadecimal text back: [2 * k] digits are [k] bytes. *)
Lemma hexPairs_fixedHexOnto (k : nat) :
  forall (v : Z) (acc : string) (bs : list Z),
    hexPairs acc = Some bs ->
    hexPairs (fixedHexOnto (2 * k) v acc) = Some (bigEndianOnto k v bs).
Proof.
  induction k as [|k IH]; intros v acc bs Hacc.
  - exact Hacc.
  - replace (2 * S k)%nat with (S (S (2 * k))) by lia.
    cbn [fixedHexOnto bigEndianOnto].
    rewrite Z.div_div by lia. change (16 * 16) with 256.
    apply IH. cbn [hexPairs].
    rewrite !hexValue_hexDigit, Hacc by (apply Z.mod_pos_bound; lia).
    do 2 f_equal.
    pose proof (Z.div_mod v 16 ltac:(lia)).
    pose proof (Z.div_mod (v / 16) 16 ltac:(lia)).
    pose proof (Z.mod_pos_bound v 16 ltac:(lia)).
    pose proof (Z.mod_pos_bound (v / 16) 16 ltac:(lia)).
    apply Z.mod_unique_pos with (q := v / 16 / 16); lia.
Qed.

End HexText.

(** ** Words, bytes and records *)

Section Records.

Import Js Wire.

Lemma bigEndianOnto_app (k : nat) (v : Z) (a b : list Z) :
  bigEndianOnto k v (a ++ b) = bigEndianOnto k v a ++ b.
Proof.
  revert v a; induction k as [|k IH]; intros v a; cbn [bigEndianOnto].
  - reflexivity.
  - now rewrite <- IH.
Qed.

Lemma bigEndianOnto_length (k : nat) (v : Z) (acc : list Z) :
  List.length (bigEndianOnto k v acc) = (k + List.length acc)%nat.
Proof.
  revert v acc; induction k as [|k IH]; intros v acc; cbn [bigEndianOnto].
  - reflexivity.
  - rewrite IH. cbn. lia.
Qed.

Lemma bigEndianOnto_bytes (k : nat) (v : Z) (acc : list Z) :
  Forall (fun b => 0 <= b < 256) acc ->
  Forall (fun b => 0 <= b < 256) (bigEndianOnto k v acc).
Proof.
  revert v acc; induction k as [|k IH]; intros v acc Hacc; cbn [bigEndianOnto].
  - exact Hacc.
  - apply IH. constructor; [apply Z.mod_pos_bound; lia | exact Hacc].
Qed.

(** Reading a big-endian byte string continues from the value read so far. *)
Lemma fold_bigEndianOnto (k : nat) :
  forall (v a : Z) (acc : list Z),
    fold_left (fun w b => w * 256 + b) (bigEndianOnto k v acc) a
    = fold_left (fun w b => w * 256 + b) acc
        (a * 256 ^ Z.of_nat k + v mod 256 ^ Z.of_nat k).
Proof.
  induction k as [|k IH]; intros v a acc; cbn [bigEndianOnto].
  - cbn [Z.of_nat]. rewrite Z.pow_0_r, Z.mod_1_r. f_equal. lia.
  - rewrite IH. cbn [fold_left]. f_equal.
    rewrite Nat2Z.inj_succ, Z.pow_succ_r by lia.
    assert (0 < 256 ^ Z.of_nat k) by (apply Z.pow_pos_nonneg; lia).
    rewrite (Z.rem_mul_r v 256 (256 ^ Z.of_nat k)) by lia.
    lia.
Qed.

Lemma wordOfBytes_bigEndian64 (v : Z) :
  0 <= v < 2 ^ 64 -> wordOfBytes (bigEndian64 v) = v.
Proof.
  intros Hv. unfold wordOfBytes, bigEndian64.
  rewrite fold_bigEndianOnto. cbn [fold_left].
  change (256 ^ Z.of_nat 8) with (2 ^ 64).
  rewrite Z.mod_small by lia. lia.
Qed.

Section OneStep.

Variable step : Step.
Hypothesis step_ok : stepInRange step.

Lemma blockDelta_low_bits : blockDelta step / 2 ^ 40 = 0.
Proof. apply Z.div_small. destruct step_ok as [_ D]. lia. Qed.

(** The rate field is bits 63..40 of the packed word. *)
Lemma packedValue_high : Z.shiftr (packedValue step) 40 = mps step.
Proof.
  unfold packedValue.
  rewrite Z.shiftr_lor, Z.shiftr_shiftl_l, Z.sub_diag, Z.shiftl_0_r by lia.
  rewrite (Z.shiftr_div_pow2 (blockDelta step)) by lia.
  rewrite blockDelta_low_bits. apply Z.lor_0_r.
Qed.

(** The duration field is bits 39..0 of the packed word. *)
Lemma packedValue_low :
  Z.land (packedValue step) (Z.ones 40) = blockDelta step.
Proof.
  unfold packedValue.
  rewrite Z.land_lor_distr_l, !Z.land_ones by lia.
  rewrite Z.shiftl_mul_pow2, Z.mod_mul by lia.
  rewrite Z.lor_0_l. apply Z.mod_small.
  destruct step_ok as [_ D]. lia.
Qed.

Lemma packedValue_sum :
  packedValue step = mps step * 2 ^ 40 + blockDelta step.
Proof.
  rewrite (Z.div_mod (packedValue step) (2 ^ 40)) at 1 by lia.
  rewrite <- Z.shiftr_div_pow2, <- Z.land_ones by lia.
  rewrite packedValue_high, packedValue_low. lia.
Qed.

Lemma packedValue_bounds : 0 <= packedValue step < 2 ^ 64.
Proof.
  rewrite packedValue_sum. destruct step_ok as [R D]. lia.
Qed.

Lemma stepOfWord_packedValue : stepOfWord (packedValue step) = step.
Proof.
  unfold stepOfWord. rewrite packedValue_high, packedValue_low.
  destruct step; reflexivity.
Qed.

Lemma hexValue_of_step :
  padStart 16 "0" (toString16 (packedValue step))
  = fixedHexOnto 16 (packedValue step) "".
Proof. apply padStart_toString16, packedValue_bounds. Qed.

Lemma recordOf_length : List.length (recordOf step) = 8%nat.
Proof. apply bigEndianOnto_length. Qed.

End OneStep.

Lemma append_assoc (a b c : string) :
  ((a ++ b) ++ c = a ++ (b ++ c))%string.
Proof. induction a as [|x a IH]; cbn; [reflexivity | now rewrite IH]. Qed.

Lemma encode_loop (steps : list Step) :
  Forall stepInRange steps ->
  forall prefix : string,
    fold_left
      (fun encoded step =>
         (encoded ++ padStart 16 "0" (toString16 (packedValue step)))%string)
      steps prefix
    = (prefix ++ wordsText steps)%string.
Proof.
  induction 1 as [|s steps Hs _ IH]; intros prefix; cbn [fold_left wordsText fold_right].
  - clear. induction prefix as [|x p IH]; cbn; [reflexivity | now rewrite <- IH].
  - rewrite IH, hexValue_of_step, append_assoc, <- fixedHexOnto_app by assumption.
    reflexivity.
Qed.

Lemma encodeSteps_text (steps : list Step) :
  Forall stepInRange steps ->
  encodeSteps steps = String "0" (String "x" (wordsText steps)).
Proof. intros H. unfold encodeSteps. now rewrite encode_loop. Qed.

Lemma hexPairs_wordsText (steps : list Step) :
  hexPairs (wordsText steps) = Some (flat_map recordOf steps).
Proof.
  induction steps as [|s steps IH]; cbn [wordsText fold_right flat_map].
  - reflexivity.
  - rewrite (hexPairs_fixedHexOnto 8 _ _ _ IH).
    unfold recordOf, bigEndian64.
    now rewrite <- bigEndianOnto_app.
Qed.

Lemma hexToBytes_encodeSteps (steps : list Step) :
  Forall stepInRange steps ->
  hexToBytes (encodeSteps steps) = Some (flat_map recordOf steps).
Proof.
  intros H. rewrite encodeSteps_text by assumption.
  apply hexPairs_wordsText.
Qed.

Lemma decodeRecords_cons (v : Z) (rest : list Z) :
  decodeRecords (bigEndian64 v ++ rest)
  = match decodeRecords rest with
    | Some steps => Some (stepOfWord (wordOfBytes (bigEndian64 v)) :: steps)
    | None => None
    end.
Proof. reflexivity. Qed.

Lemma decodeRecords_records (steps : list Step) :
  Forall stepInRange steps ->
  decodeRecords (flat_map recordOf steps) = Some steps.
Proof.
  induction 1 as [|s steps Hs _ IH]; cbn [flat_map].
  - reflexivity.
  - unfold recordOf at 1. rewrite decodeRecords_cons, IH.
    rewrite wordOfBytes_bigEndian64 by (apply packedValue_bounds; assumption).
    now rewrite stepOfWord_packedValue.
Qed.

Lemma decode_encodeSteps (steps : list Step) :
  Forall stepInRange steps -> decode (encodeSteps steps) = Some steps.
Proof.
  intros H. unfold decode.
  rewrite hexToBytes_encodeSteps by assumption.
  now apply decodeRecords_records.
Qed.

Lemma records_length (steps : list Step) :
  List.length (flat_map recordOf steps) = (8 * List.length steps)%nat.
Proof.
  induction steps as [|s steps IH]; cbn [flat_map List.length].
  - reflexivity.
  - rewrite length_app, recordOf_length, IH. lia.
Qed.

End Records.

(** ** Runs of the function *)

Section Runs.

Variable d : Z.
Variable c : Console.

Lemma buildSteps_nonpositive :
  d <= 0 -> buildSteps d c = (inl InvalidDuration, c).
Proof.
  intros H. unfold buildSteps.
  replace (d <=? 0) with true by (symmetry; apply Z.leb_le; lia).
  reflexivity.
Qed.

Lemma buildSteps_too_large :
  MAX_BLOCK_DELTA < d -> buildSteps d c = (inl (DurationTooLarge d), c).
Proof.
  intros H. unfold buildSteps.
  assert (0 < MAX_BLOCK_DELTA) by reflexivity.
  replace (d <=? 0) with false by (symmetry; apply Z.leb_gt; lia).
  replace (d >? MAX_BLOCK_DELTA) with true
    by (symmetry; rewrite Z.gtb_ltb; apply Z.ltb_lt; lia).
  reflexivity.
Qed.

Lemma encode_nonpositive :
  d <= 0 -> encodeLinearAuctionSteps d c = (inl InvalidDuration, c).
Proof.
  intros H. unfold encodeLinearAuctionSteps, bind.
  now rewrite buildSteps_nonpositive.
Qed.

Lemma encode_too_large :
  MAX_BLOCK_DELTA < d ->
  encodeLinearAuctionSteps d c = (inl (DurationTooLarge d), c).
Proof.
  intros H. unfold encodeLinearAuctionSteps, bind.
  now rewrite buildSteps_too_large.
Qed.

Lemma encode_valid :
  1 <= d <= MAX_BLOCK_DELTA ->
  exists lines : Console,
    encodeLinearAuctionSteps d c
    = (inr (encodeSteps (specSchedule d)), c ++ lines).
Proof.
  intros H. unfold encodeLinearAuctionSteps, bind.
  rewrite buildSteps_valid by assumption.
  unfold console_log, ret. rewrite <- !app_assoc.
  eexists. reflexivity.
Qed.

(** The three ways a call can end. *)
Lemma encode_cases :
  (d <= 0 /\ encodeLinearAuctionSteps d c = (inl InvalidDuration, c))
  \/ (MAX_BLOCK_DELTA < d
      /\ encodeLinearAuctionSteps d c = (inl (DurationTooLarge d), c))
  \/ (1 <= d <= MAX_BLOCK_DELTA
      /\ buildSteps d c =
           (inr (specSchedule d),
            c ++ [LogStepCalculation (Js.toString10 d)
                    (Js.toString10 (Z.quot MPS_TOTAL d))
                    (Js.toString10 (Z.rem MPS_TOTAL d))])
      /\ exists lines : Console,
           encodeLinearAuctionSteps d c
           = (inr (encodeSteps (specSchedule d)), c ++ lines)).
Proof.
  destruct (Z_le_gt_dec d 0) as [Neg|Pos].
  - left. split; [exact Neg | now apply encode_nonpositive].
  - destruct (Z_lt_le_dec MAX_BLOCK_DELTA d) as [Big|Ok].
    + right; left. split; [exact Big | now apply encode_too_large].
    + right; right. assert (1 <= d <= MAX_BLOCK_DELTA) by lia.
      repeat split; try lia; [now apply buildSteps_valid | now apply encode_valid].
Qed.

(** A call that returns was given a duration of the valid range. *)
Lemma encode_success_valid (encoded : string) :
  outcome (encodeLinearAuctionSteps d c) = inr encoded ->
  1 <= d <= MAX_BLOCK_DELTA /\ encoded = encodeSteps (specSchedule d).
Proof.
  intros H.
  destruct encode_cases as [[_ E]|[[_ E]|[V [_ [lines E]]]]];
    rewrite E in H; cbn in H; try discriminate.
  split; [exact V | congruence].
Qed.

End Runs.

(** * The specification's claims *)

Lemma max_block_delta_value : MAX_BLOCK_DELTA = 1099511627775.
Proof. reflexivity. Qed.

Lemma max_mps_value : MAX_MPS = 16777215.
Proof. reflexivity. Qed.

(** ** Round trip and exact totals *)

(** C1: for every requested duration in [1, 1_099_511_627_775] on which the
    encoder returns, decoding the returned text (8-byte big-endian records,
    rate = top 24 bits, duration = low 40 bits) gives back exactly the steps
    that were constructed, whose rate-times-duration products sum to
    10,000,000 and whose durations sum to the requested duration. *)
Theorem decode_recovers_schedule (d : Z) (c : Console) (encoded : string) :
  1 <= d <= 1099511627775 ->
  outcome (encodeLinearAuctionSteps d c) = inr encoded ->
  exists steps : list Step,
    outcome (buildSteps d c) = inr steps
    /\ Wire.decode encoded = Some steps
    /\ sumRateDuration steps = 10000000
    /\ sumBlocks steps = d.
Proof.
  intros V H. rewrite <- max_block_delta_value in V.
  apply encode_success_valid in H as [_ ->].
  exists (specSchedule d). repeat apply conj.
  - now rewrite buildSteps_valid.
  - apply decode_encodeSteps, specSchedule_in_range, V.
  - now apply sumRateDuration_specSchedule.
  - now apply sumBlocks_specSchedule.
Qed.

Lemma decode_recovers_schedule_7200 :
  1 <= 7200 <= 1099511627775
  /\ outcome (encodeLinearAuctionSteps 7200 [])
     = inr "0x00056c000000032000056d0000001900"%string
  /\ exists steps : list Step,
       outcome (buildSteps 7200 []) = inr steps
       /\ Wire.decode "0x00056c000000032000056d0000001900" = Some steps
       /\ sumRateDuration steps = 10000000
       /\ sumBlocks steps = 7200.
Proof.
  split; [lia|]. split; [reflexivity|].
  apply (decode_recovers_schedule 7200 []); [lia | reflexivity].
Defined.

(** ** The constructed schedule *)

(** C2: for every requested duration d in [1, 1_099_511_627_775], with
    baseRate = 10,000,000 div d and remainder = 10,000,000 mod d, the encoder
    constructs the single step (baseRate, d) when the remainder is zero, and
    otherwise the two steps (baseRate, d - remainder) then
    (baseRate + 1, remainder); it returns the text of exactly these steps.
    For d = 3 the steps are (3333333, 2) then (3333334, 1). *)
Theorem encode_constructs_schedule (d : Z) (c : Console) :
  1 <= d <= 1099511627775 ->
  let baseRate := 10000000 / d in
  let remainder := 10000000 mod d in
  let schedule :=
    if remainder =? 0
    then [ {| mps := baseRate; blockDelta := d |} ]
    else [ {| mps := baseRate; blockDelta := d - remainder |};
           {| mps := baseRate + 1; blockDelta := remainder |} ] in
  outcome (buildSteps d c) = inr schedule
  /\ outcome (encodeLinearAuctionSteps d c) = inr (encodeSteps schedule)
  /\ outcome (buildSteps 3 c)
     = inr [ {| mps := 3333333; blockDelta := 2 |};
             {| mps := 3333334; blockDelta := 1 |} ].
Proof.
  intros V. rewrite <- max_block_delta_value in V. cbv zeta.
  change (if 10000000 mod d =? 0
          then [ {| mps := 10000000 / d; blockDelta := d |} ]
          else [ {| mps := 10000000 / d; blockDelta := d - 10000000 mod d |};
                 {| mps := 10000000 / d + 1; blockDelta := 10000000 mod d |} ])
    with (specSchedule d).
  repeat apply conj.
  - now rewrite buildSteps_valid.
  - destruct (encode_valid d c V) as [lines E]. now rewrite E.
  - assert (1 <= 3 <= MAX_BLOCK_DELTA) as V3
      by (rewrite max_block_delta_value; lia).
    now rewrite (buildSteps_valid 3 V3).
Qed.

Lemma encode_constructs_schedule_50000 :
  1 <= 50000 <= 1099511627775
  /\ outcome (buildSteps 50000 []) = inr [ {| mps := 200; blockDelta := 50000 |} ]
  /\ outcome (encodeLinearAuctionSteps 50000 [])
     = inr (encodeSteps [ {| mps := 200; blockDelta := 50000 |} ])
  /\ outcome (buildSteps 3 [])
     = inr [ {| mps := 3333333; blockDelta := 2 |};
             {| mps := 3333334; blockDelta := 1 |} ].
Proof.
  split; [lia|].
  apply (encode_constructs_schedule 50000 []). lia.
Defined.

(** ** The byte layout *)

(** C3: whenever the encoder returns, the returned byte string is the
    concatenation, in step order, of one 8-byte big-endian record per step;
    the 64-bit value of a record is (rate << 40) | duration, with the rate in
    bits 63..40 and the duration in bits 39..0; the total length is 8 bytes
    per step, that is 8 bytes for one step and 16 bytes for two. *)
Theorem encoded_bytes_layout (d : Z) (c : Console) (encoded : string) :
  outcome (encodeLinearAuctionSteps d c) = inr encoded ->
  exists steps : list Step,
    outcome (buildSteps d c) = inr steps
    /\ encoded = String "0" (String "x" (Wire.wordsText steps))
    /\ Wire.hexToBytes encoded = Some (flat_map Wire.recordOf steps)
    /\ List.length (flat_map Wire.recordOf steps) = (8 * List.length steps)%nat
    /\ (List.length steps = 1%nat \/ List.length steps = 2%nat)
    /\ Forall (fun step =>
                 Wire.recordOf step = Wire.bigEndian64 (packedValue step)
                 /\ List.length (Wire.recordOf step) = 8%nat
                 /\ Forall (fun b => 0 <= b < 256) (Wire.recordOf step)
                 /\ Wire.wordOfBytes (Wire.recordOf step) = packedValue step
                 /\ 0 <= packedValue step < 2 ^ 64
                 /\ Z.shiftr (packedValue step) 40 = mps step
                 /\ Z.land (packedValue step) (Z.ones 40) = blockDelta step)
              steps.
Proof.
  intros H. apply encode_success_valid in H as [V ->].
  pose proof (specSchedule_in_range d V) as R.
  exists (specSchedule d). repeat apply conj.
  - now rewrite buildSteps_valid.
  - now apply encodeSteps_text.
  - now apply hexToBytes_encodeSteps.
  - apply records_length.
  - now apply specSchedule_length.
  - eapply Forall_impl; [|exact R]. intros step S. repeat apply conj.
    + reflexivity.
    + apply recordOf_length.
    + apply bigEndianOnto_bytes. constructor.
    + apply wordOfBytes_bigEndian64, packedValue_bounds, S.
    + apply packedValue_bounds, S.
    + apply packedValue_bounds, S.
    + apply packedValue_high, S.
    + apply packedValue_low, S.
Qed.

Lemma encoded_bytes_layout_3 :
  outcome (encodeLinearAuctionSteps 3 [])
  = inr "0x32dcd5000000000232dcd60000000001"%string
  /\ exists steps : list Step,
       outcome (buildSteps 3 []) = inr steps
       /\ "0x32dcd5000000000232dcd60000000001"%string
          = String "0" (String "x" (Wire.wordsText steps))
       /\ Wire.hexToBytes "0x32dcd5000000000232dcd60000000001"
          = Some (flat_map Wire.recordOf steps)
       /\ List.length (flat_map Wire.recordOf steps) = (8 * List.length steps)%nat
       /\ (List.length steps = 1%nat \/ List.length steps = 2%nat)
       /\ Forall (fun step =>
                    Wire.recordOf step = Wire.bigEndian64 (packedValue step)
                    /\ List.length (Wire.recordOf step) = 8%nat
                    /\ Forall (fun b => 0 <= b < 256) (Wire.recordOf step)
                    /\ Wire.wordOfBytes (Wire.recordOf step) = packedValue step
                    /\ 0 <= packedValue step < 2 ^ 64
                    /\ Z.shiftr (packedValue step) 40 = mps step
                    /\ Z.land (packedValue step) (Z.ones 40) = blockDelta step)
                 steps.
Proof.
  split; [reflexivity|].
  apply (encoded_bytes_layout 3 []). reflexivity.
Defined.

(** ** Rejected durations *)

(** C4: the encoder fails with InvalidDuration exactly when the requested
    duration is zero or negative, and then does nothing else: the console is
    left as it was.  In particular 0 and -5 are rejected with
    InvalidDuration. *)
Theorem invalid_duration_iff (d : Z) (c : Console) :
  (outcome (encodeLinearAuctionSteps d c) = inl InvalidDuration <-> d <= 0)
  /\ (d <= 0 -> encodeLinearAuctionSteps d c = (inl InvalidDuration, c))
  /\ encodeLinearAuctionSteps 0 c = (inl InvalidDuration, c)
  /\ encodeLinearAuctionSteps (-5) c = (inl InvalidDuration, c).
Proof.
  repeat apply conj.
  - intros H.
    destruct (encode_cases d c) as [[N _]|[[_ E]|[_ [_ [lines E]]]]];
      [exact N | rewrite E in H; discriminate H ..].
  - intros N. now rewrite encode_nonpositive.
  - apply encode_nonpositive.
  - reflexivity.
  - reflexivity.
Qed.

Lemma invalid_duration_iff_minus_5 :
  -5 <= 0
  /\ encodeLinearAuctionSteps (-5) [LogEncodedSteps "0x"]
     = (inl InvalidDuration, [LogEncodedSteps "0x"]).
Proof.
  split; [lia|].
  destruct (invalid_duration_iff (-5) [LogEncodedSteps "0x"]) as (_ & H & _).
  apply H. lia.
Defined.

(** C5: on a positive requested duration the encoder fails with
    DurationTooLarge exactly when the duration exceeds 1,099,511,627,775;
    that value itself is accepted and 1,099,511,627,776 is rejected with
    DurationTooLarge. *)
Theorem duration_too_large_iff (d : Z) (c : Console) :
  0 < d ->
  ((exists x : Z, outcome (encodeLinearAuctionSteps d c) = inl (DurationTooLarge x))
   <-> 1099511627775 < d)
  /\ (1099511627775 < d ->
      encodeLinearAuctionSteps d c = (inl (DurationTooLarge d), c))
  /\ (exists encoded : string,
        outcome (encodeLinearAuctionSteps 1099511627775 c) = inr encoded)
  /\ outcome (encodeLinearAuctionSteps 1099511627776 c)
     = inl (DurationTooLarge 1099511627776).
Proof.
  intros P. rewrite <- max_block_delta_value. repeat apply conj.
  - intros [x H].
    destruct (encode_cases d c) as [[N _]|[[B _]|[_ [_ [lines E]]]]];
      [lia | exact B | rewrite E in H; discriminate H].
  - intros B. exists d. now rewrite encode_too_large.
  - apply encode_too_large.
  - destruct (encode_valid MAX_BLOCK_DELTA c) as [lines E].
    + rewrite max_block_delta_value; lia.
    + eexists. rewrite E. reflexivity.
  - rewrite encode_too_large; [reflexivity | rewrite max_block_delta_value; lia].
Qed.

Lemma duration_too_large_iff_boundary :
  0 < 1099511627776
  /\ ((exists x : Z,
         outcome (encodeLinearAuctionSteps 1099511627776 [])
         = inl (DurationTooLarge x))
      <-> 1099511627775 < 1099511627776)
  /\ (1099511627775 < 1099511627776 ->
      encodeLinearAuctionSteps 1099511627776 []
      = (inl (DurationTooLarge 1099511627776), []))
  /\ (exists encoded : string,
        outcome (encodeLinearAuctionSteps 1099511627775 []) = inr encoded)
  /\ outcome (encodeLinearAuctionSteps 1099511627776 [])
     = inl (DurationTooLarge 1099511627776).
Proof.
  split; [lia|].
  apply (duration_too_large_iff 1099511627776 []). lia.
Defined.

(** ** Field ranges *)

(** C6: whenever the encoder returns, every step of the schedule it
    constructed (equally, every step decoded from the returned bytes) has
    0 <= rate <= 16,777,215 and 1 <= duration <= 1,099,511,627,775. *)
Theorem steps_fit_fields (d : Z) (c : Console) (encoded : string) :
  outcome (encodeLinearAuctionSteps d c) = inr encoded ->
  exists steps : list Step,
    outcome (buildSteps d c) = inr steps
    /\ Wire.decode encoded = Some steps
    /\ Forall (fun step =>
                 0 <= mps step <= 16777215
                 /\ 1 <= blockDelta step <= 1099511627775) steps.
Proof.
  intros H. apply encode_success_valid in H as [V ->].
  pose proof (specSchedule_in_range d V) as R.
  exists (specSchedule d). repeat apply conj.
  - now rewrite buildSteps_valid.
  - now apply decode_encodeSteps.
  - exact R.
Qed.

Lemma steps_fit_fields_boundary :
  outcome (encodeLinearAuctionSteps 1099511627775 [])
  = inr "0x000000ffff67697f0000010000989680"%string
  /\ exists steps : list Step,
       outcome (buildSteps 1099511627775 []) = inr steps
       /\ Wire.decode "0x000000ffff67697f0000010000989680" = Some steps
       /\ Forall (fun step =>
                    0 <= mps step <= 16777215
                    /\ 1 <= blockDelta step <= 1099511627775) steps.
Proof.
  split; [reflexivity|].
  apply (steps_fit_fields 1099511627775 []). reflexivity.
Defined.

(** ** Unreachable error branches *)

(** C7: the total re-computed on the constructed steps is 10,000,000 for
    every duration that passes the three earlier guards, so the check of
    lines 69-71 never fails and no call ends with
    InternalInvariantViolation. *)
Theorem cross_check_never_fails (d : Z) (c : Console) :
  ((d <=? 0) = false ->
   (d >? MAX_BLOCK_DELTA) = false ->
   (Z.quot MPS_TOTAL d >? MAX_MPS) || (Z.quot MPS_TOTAL d + 1 >? MAX_MPS) = false ->
   sumMps (linearSteps d (Z.quot MPS_TOTAL d) (Z.rem MPS_TOTAL d)) = 10000000)
  /\ (forall t : Z,
        outcome (buildSteps d c) <> inl (InternalInvariantViolation t))
  /\ (forall t : Z,
        outcome (encodeLinearAuctionSteps d c)
        <> inl (InternalInvariantViolation t)).
Proof.
  repeat apply conj.
  - intros G1 G2 _.
    apply Z.leb_gt in G1. rewrite Z.gtb_ltb in G2. apply Z.ltb_ge in G2.
    assert (1 <= d <= MAX_BLOCK_DELTA) as V by lia.
    rewrite linearSteps_cases by exact V. now apply sumMps_specSchedule.
  - intros t H.
    destruct (encode_cases d c) as [[N _]|[[B _]|[_ [E _]]]].
    + rewrite buildSteps_nonpositive in H by exact N. discriminate H.
    + rewrite buildSteps_too_large in H by exact B. discriminate H.
    + rewrite E in H. discriminate H.
  - intros t H.
    destruct (encode_cases d c) as [[_ E]|[[_ E]|[_ [_ [lines E]]]]];
      rewrite E in H; discriminate H.
Qed.

Lemma cross_check_never_fails_7200 :
  sumMps (linearSteps 7200 (Z.quot MPS_TOTAL 7200) (Z.rem MPS_TOTAL 7200))
  = 10000000.
Proof.
  destruct (cross_check_never_fails 7200 []) as (H & _).
  apply H; reflexivity.
Defined.

(** C8: for every requested duration in [1, 1,099,511,627,775] the base
    rate 10,000,000 div d satisfies baseRate + 1 <= 16,777,215, so no call
    ends with RateOverflow, and the encoder returns exactly on the durations
    of that range. *)
Theorem rate_overflow_unreachable (d : Z) (c : Console) :
  (1 <= d <= 1099511627775 ->
   baseMpsOf d = 10000000 / d /\ baseMpsOf d + 1 <= 16777215)
  /\ outcome (encodeLinearAuctionSteps d c) <> inl RateOverflow
  /\ ((exists encoded : string,
         outcome (encodeLinearAuctionSteps d c) = inr encoded)
      <-> 1 <= d <= 1099511627775).
Proof.
  rewrite <- max_block_delta_value. repeat apply conj.
  - intros V. unfold baseMpsOf. split.
    + now apply quot_is_div.
    + pose proof (baseMps_bounds d V). lia.
  - intros H.
    destruct (encode_cases d c) as [[_ E]|[[_ E]|[_ [_ [lines E]]]]];
      rewrite E in H; discriminate H.
  - intros [encoded H]. now apply encode_success_valid in H as [V _].
  - intros V. destruct (encode_valid d c V) as [lines E].
    eexists. rewrite E. reflexivity.
Qed.

Lemma rate_overflow_unreachable_1 :
  1 <= 1 <= 1099511627775
  /\ baseMpsOf 1 = 10000000 / 1 /\ baseMpsOf 1 + 1 <= 16777215.
Proof.
  split; [lia|].
  destruct (rate_overflow_unreachable 1 []) as (H & _).
  apply H. lia.
Defined.

(** ** Determinism *)

(** What a call does is fixed by its argument: the same outcome and the same
    lines appended to whatever the console held. *)
Lemma encode_run_fixed (d : Z) :
  exists (r : Error + string) (lines : Console),
    forall c : Console, encodeLinearAuctionSteps d c = (r, c ++ lines).
Proof.
  destruct (Z_le_gt_dec d 0) as [N|P].
  - exists (inl InvalidDuration), []. intros c.
    rewrite app_nil_r. now apply encode_nonpositive.
  - destruct (Z_lt_le_dec MAX_BLOCK_DELTA d) as [B|V].
    + exists (inl (DurationTooLarge d)), []. intros c.
      rewrite app_nil_r. now apply encode_too_large.
    + assert (1 <= d <= MAX_BLOCK_DELTA) as V' by lia.
      destruct (encode_valid d [] V') as [lines E]. cbn [app] in E.
      exists (inr (encodeSteps (specSchedule d))), lines. intros c.
      unfold encodeLinearAuctionSteps, bind in *.
      rewrite buildSteps_valid in * by exact V'.
      unfold console_log, ret in *. cbn [app] in E.
      injection E as <-. now rewrite <- !app_assoc.
Qed.

(** C9: two calls with the same requested duration yield identical output,
    whatever the state of the console they run in: the result depends on
    nothing but the argument. *)
Theorem encode_deterministic (d : Z) (c1 c2 : Console) :
  outcome (encodeLinearAuctionSteps d c1)
  = outcome (encodeLinearAuctionSteps d c2).
Proof.
  destruct (encode_run_fixed d) as (r & lines & E).
  now rewrite (E c1), (E c2).
Qed.

(** ** Monotonicity *)

(** C10: for valid requested durations d1 <= d2 the base rate computed for
    d2 is at most the base rate computed for d1; the base rate is the rate of
    the first constructed step. *)
Theorem baseMps_antitone (d1 d2 : Z) (c : Console) :
  1 <= d1 -> d1 <= d2 -> d2 <= 1099511627775 ->
  baseMpsOf d2 <= baseMpsOf d1
  /\ firstRate (outcome (buildSteps d1 c)) = Some (baseMpsOf d1)
  /\ firstRate (outcome (buildSteps d2 c)) = Some (baseMpsOf d2).
Proof.
  intros L M U. rewrite <- max_block_delta_value in U.
  assert (forall d, 1 <= d <= MAX_BLOCK_DELTA ->
                    firstRate (outcome (buildSteps d c)) = Some (baseMpsOf d))
    as First.
  { intros d V. rewrite buildSteps_valid by exact V.
    unfold outcome, fst, specSchedule, baseMpsOf.
    rewrite quot_is_div by exact V. unfold MPS_TOTAL.
    destruct (10000000 mod d =? 0); reflexivity. }
  repeat apply conj.
  - unfold baseMpsOf. apply Z.quot_le_compat_l; unfold MPS_TOTAL; lia.
  - apply First. lia.
  - apply First. lia.
Qed.

Lemma baseMps_antitone_3_7200 :
  1 <= 3 /\ 3 <= 7200 /\ 7200 <= 1099511627775
  /\ baseMpsOf 7200 <= baseMpsOf 3
  /\ firstRate (outcome (buildSteps 3 [])) = Some (baseMpsOf 3)
  /\ firstRate (outcome (buildSteps 7200 [])) = Some (baseMpsOf 7200).
Proof.
  split; [lia|]. split; [lia|]. split; [lia|].
  apply (baseMps_antitone 3 7200 []); lia.
Defined.

(** * Further properties of the encoder *)

(** X1: the requested duration can be read back from the output: two calls
    that return the same text were given the same duration. *)
Theorem encode_injective (d1 d2 : Z) (c1 c2 : Console) (encoded : string) :
  outcome (encodeLinearAuctionSteps d1 c1) = inr encoded ->
  outcome (encodeLinearAuctionSteps d2 c2) = inr encoded ->
  d1 = d2.
Proof.
  intros H1 H2.
  apply encode_success_valid in H1 as [V1 E1].
  apply encode_success_valid in H2 as [V2 E2].
  pose proof (decode_encodeSteps _ (specSchedule_in_range d1 V1)) as D1.
  pose proof (decode_encodeSteps _ (specSchedule_in_range d2 V2)) as D2.
  rewrite <- E1 in D1. rewrite <- E2 in D2.
  assert (specSchedule d1 = specSchedule d2) as S by congruence.
  rewrite <- (sumBlocks_specSchedule d1), <- (sumBlocks_specSchedule d2).
  now rewrite S.
Qed.

Lemma encode_injective_50000 :
  outcome (encodeLinearAuctionSteps 50000 []) = inr "0x0000c8000000c350"%string
  /\ outcome (encodeLinearAuctionSteps 50000 [LogEncodedSteps "0x"])
     = inr "0x0000c8000000c350"%string
  /\ 50000 = 50000.
Proof.
  split; [reflexivity|]. split; [reflexivity|].
  apply (encode_injective 50000 50000 [] [LogEncodedSteps "0x"]
           "0x0000c8000000c350"); reflexivity.
Defined.

(** X2: a call that throws prints nothing; a call that returns prints
    exactly four lines after what the console held: the step calculation,
    the steps with their products, the total (always equal to the target,
    with the match flag set) and the returned text itself. *)
Theorem encode_console_lines (d : Z) (c : Console) :
  (forall e : Error,
      outcome (encodeLinearAuctionSteps d c) = inl e ->
      printed (encodeLinearAuctionSteps d c) = c)
  /\ (forall encoded : string,
        outcome (encodeLinearAuctionSteps d c) = inr encoded ->
        exists steps : list Step,
          outcome (buildSteps d c) = inr steps
          /\ printed (encodeLinearAuctionSteps d c)
             = c ++ [ LogStepCalculation (Js.toString10 d)
                        (Js.toString10 (10000000 / d))
                        (Js.toString10 (10000000 mod d));
                      LogStepsCreated
                        (map (fun s => (Js.toString10 (mps s),
                                        Js.toString10 (blockDelta s),
                                        Js.toString10 (mps s * blockDelta s)))
                             steps);
                      LogTotalMps "10000000" "10000000" true;
                      LogEncodedSteps encoded ]).
Proof.
  split.
  - intros e H.
    destruct (encode_cases d c) as [[_ E]|[[_ E]|[_ [_ [lines E]]]]];
      rewrite E in *; [reflexivity | reflexivity | discriminate H].
  - intros encoded H.
    pose proof H as H'. apply encode_success_valid in H' as [V ->].
    exists (specSchedule d). split; [now rewrite buildSteps_valid|].
    unfold encodeLinearAuctionSteps, bind.
    rewrite buildSteps_valid by exact V.
    unfold console_log, ret, printed, snd.
    rewrite sumMps_specSchedule by exact V.
    rewrite quot_is_div, rem_is_mod by exact V.
    rewrite <- !app_assoc. reflexivity.
Qed.

Lemma encode_console_lines_3 :
  outcome (encodeLinearAuctionSteps 3 []) =
    inr "0x32dcd5000000000232dcd60000000001"%string
  /\ exists steps : list Step,
       outcome (buildSteps 3 []) = inr steps
       /\ printed (encodeLinearAuctionSteps 3 [])
          = [] ++ [ LogStepCalculation (Js.toString10 3)
                      (Js.toString10 (10000000 / 3))
                      (Js.toString10 (10000000 mod 3));
                    LogStepsCreated
                      (map (fun s => (Js.toString10 (mps s),
                                      Js.toString10 (blockDelta s),
                                      Js.toString10 (mps s * blockDelta s)))
                           steps);
                    LogTotalMps "10000000" "10000000" true;
                    LogEncodedSteps "0x32dcd5000000000232dcd60000000001" ].
Proof.
  split; [reflexivity|].
  destruct (encode_console_lines 3 []) as [_ H].
  apply H. reflexivity.
Defined.

(** X3: a duration of at most 10,000,000 blocks gives every step a rate of
    at least one; a longer one issues nothing for the first d - 10,000,000
    blocks and one unit per block for the last 10,000,000. *)
Theorem zero_rate_iff_long (d : Z) (c : Console) (steps : list Step) :
  outcome (buildSteps d c) = inr steps ->
  (d <= 10000000 -> Forall (fun s => 1 <= mps s) steps)
  /\ (10000000 < d ->
      steps = [ {| mps := 0; blockDelta := d - 10000000 |};
                {| mps := 1; blockDelta := 10000000 |} ]).
Proof.
  intros H.
  destruct (encode_cases d c) as [[N _]|[[B _]|[V [E _]]]].
  - rewrite buildSteps_nonpositive in H by exact N. discriminate H.
  - rewrite buildSteps_too_large in H by exact B. discriminate H.
  - rewrite E in H. injection H as <-.
    pose proof (division_identity d) as I. pose proof (remainder_bounds d V) as R.
    pose proof (baseMps_bounds d V) as Q.
    unfold specSchedule.
    change (10000000 / d) with (MPS_TOTAL / d).
    change (10000000 mod d) with (MPS_TOTAL mod d).
    rewrite <- quot_is_div, <- rem_is_mod by exact V.
    unfold MPS_TOTAL at 1 in I.
    split.
    + intros Short.
      assert (1 <= Z.quot MPS_TOTAL d) by nia.
      destruct (Z.rem MPS_TOTAL d =? 0); repeat constructor; cbn; lia.
    + intros Long.
      assert (Z.quot MPS_TOTAL d = 0) as Q0 by nia.
      rewrite Q0 in *. assert (Z.rem MPS_TOTAL d = 10000000) as -> by lia.
      reflexivity.
Qed.

Lemma zero_rate_iff_long_boundary :
  outcome (buildSteps 1099511627775 [])
  = inr [ {| mps := 0; blockDelta := 1099501627775 |};
          {| mps := 1; blockDelta := 10000000 |} ]
  /\ (1099511627775 <= 10000000 ->
      Forall (fun s => 1 <= mps s)
        [ {| mps := 0; blockDelta := 1099501627775 |};
          {| mps := 1; blockDelta := 10000000 |} ])
  /\ (10000000 < 1099511627775 ->
      [ {| mps := 0; blockDelta := 1099501627775 |};
        {| mps := 1; blockDelta := 10000000 |} ]
      = [ {| mps := 0; blockDelta := 1099511627775 - 10000000 |};
          {| mps := 1; blockDelta := 10000000 |} ]).
Proof.
  split; [reflexivity|].
  apply (zero_rate_iff_long 1099511627775 []). reflexivity.
Defined.

Lemma isLowerHex_hexDigit (x : Z) :
  0 <= x < 16 -> isLowerHex (Js.hexDigit x) = true.
Proof.
  intros Hx.
  assert (x = 0 \/ x = 1 \/ x = 2 \/ x = 3 \/ x = 4 \/ x = 5 \/ x = 6 \/ x = 7
          \/ x = 8 \/ x = 9 \/ x = 10 \/ x = 11 \/ x = 12 \/ x = 13
          \/ x = 14 \/ x = 15) as C by lia.
  repeat (destruct C as [->|C]; [reflexivity|]). subst x. reflexivity.
Qed.

Lemma allChars_fixedHexOnto (k : nat) :
  forall (v : Z) (acc : string),
    allChars isLowerHex (Wire.fixedHexOnto k v acc) = allChars isLowerHex acc.
Proof.
  induction k as [|k IH]; intros v acc; cbn [Wire.fixedHexOnto].
  - reflexivity.
  - rewrite IH. cbn [allChars].
    now rewrite isLowerHex_hexDigit by (apply Z.mod_pos_bound; lia).
Qed.

Lemma wordsText_lower_hex (steps : list Step) :
  allChars isLowerHex (Wire.wordsText steps) = true.
Proof.
  induction steps as [|s steps IH]; cbn [Wire.wordsText fold_right].
  - reflexivity.
  - rewrite allChars_fixedHexOnto. exact IH.
Qed.

Lemma wordsText_length (steps : list Step) :
  String.length (Wire.wordsText steps) = (16 * List.length steps)%nat.
Proof.
  induction steps as [|s steps IH]; cbn [Wire.wordsText fold_right List.length].
  - reflexivity.
  - rewrite fixedHexOnto_length. fold (Wire.wordsText steps). rewrite IH. lia.
Qed.

(** X4: the returned text is [0x] followed by sixteen lower-case hexadecimal
    digits per step and nothing else: 18 characters for one step, 34 for
    two. *)
Theorem encoded_text_shape (d : Z) (c : Console) (encoded : string) :
  outcome (encodeLinearAuctionSteps d c) = inr encoded ->
  exists (steps : list Step) (body : string),
    outcome (buildSteps d c) = inr steps
    /\ encoded = String "0" (String "x" body)
    /\ allChars isLowerHex body = true
    /\ String.length body = (16 * List.length steps)%nat
    /\ (String.length encoded = 18%nat \/ String.length encoded = 34%nat).
Proof.
  intros H. apply encode_success_valid in H as [V ->].
  pose proof (specSchedule_in_range d V) as R.
  exists (specSchedule d), (Wire.wordsText (specSchedule d)).
  rewrite (encodeSteps_text _ R). repeat apply conj.
  - now rewrite buildSteps_valid.
  - reflexivity.
  - apply wordsText_lower_hex.
  - apply wordsText_length.
  - cbn [String.length]. rewrite wordsText_length.
    destruct (specSchedule_length d) as [L|L]; rewrite L; [left | right];
      reflexivity.
Qed.

Lemma encoded_text_shape_50000 :
  outcome (encodeLinearAuctionSteps 50000 []) = inr "0x0000c8000000c350"%string
  /\ exists (steps : list Step) (body : string),
       outcome (buildSteps 50000 []) = inr steps
       /\ "0x0000c8000000c350"%string = String "0" (String "x" body)
       /\ allChars isLowerHex body = true
       /\ String.length body = (16 * List.length steps)%nat
       /\ (String.length "0x0000c8000000c350" = 18%nat
           \/ String.length "0x0000c8000000c350" = 34%nat).
Proof.
  split; [reflexivity|].
  apply (encoded_text_shape 50000 []). reflexivity.
Defined.

(** * Properties of the submit handler *)

Section Submit.

Import Page.

Lemma blocksPerDay_value : blocksPerDay = 7200.
Proof. reflexivity. Qed.

Lemma maxDays_value : maxDays = 152709948.
Proof. reflexivity. Qed.

Lemma max_uint128_value :
  MAX_UINT128 = 340282366920938463463374607431768211455.
Proof. reflexivity. Qed.

(** A whole number of days is a valid block count exactly up to [maxDays]. *)
Lemma days_valid_iff (days : Z) :
  1 <= blocksPerDay * days <= MAX_BLOCK_DELTA <-> 1 <= days <= 152709948.
Proof.
  rewrite blocksPerDay_value, max_block_delta_value. lia.
Qed.

(** A whole number of days never divides the total: 7200 has the factor 9
    and 10,000,000 does not. *)
Lemma days_remainder_nonzero (days : Z) :
  10000000 mod (blocksPerDay * days) <> 0.
Proof.
  rewrite blocksPerDay_value. intros H.
  destruct (Z.eq_dec days 0) as [->|Nz].
  - cbn in H. discriminate H.
  - apply Z.mod_divide in H; [|lia]. destruct H as [q H].
    remember (q * days) as m. assert (10000000 = 7200 * m) by nia. lia.
Qed.

(** What has to hold for the handler to reach the ABI encoding. *)
Lemma handleSubmit_prepared_inv (isConnected : bool) (address : option string)
    (currentBlock : option Z) (formData : FormValues)
    (auctionParams : AuctionParameters) :
  handleSubmit isConnected address currentBlock formData = Prepared auctionParams ->
  exists (account : string) (block : Z) (stepsData : string),
    isConnected = true /\ address = Some account
    /\ currentBlock = Some block /\ block <> 0
    /\ outcome (encodeLinearAuctionSteps
                  (blocksPerDay * durationInDays formData) []) = inr stepsData
    /\ formRequiredRaised formData <= MAX_UINT128
    /\ auctionParams =
         {| currency := formCurrency formData;
            tokensRecipient := account;
            fundsRecipient := account;
            startBlock := block + 300;
            endBlock := block + 300 + blocksPerDay * durationInDays formData;
            claimBlock := block + 300 + blocksPerDay * durationInDays formData + 100;
            tickSpacing := tickSpacingFor (floorPriceFor (userFloorPrice formData));
            validationHook := noHook;
            floorPrice := floorPriceFor (userFloorPrice formData);
            requiredCurrencyRaised := formRequiredRaised formData;
            auctionStepsData := stepsData |}.
Proof.
  unfold handleSubmit.
  destruct isConnected; [|discriminate].
  destruct address as [account|]; [|discriminate].
  destruct currentBlock as [block|]; [|discriminate].
  destruct (block =? 0) eqn:B0; [discriminate|]. apply Z.eqb_neq in B0.
  cbv zeta.
  destruct (outcome (encodeLinearAuctionSteps
                       (blocksPerDay * durationInDays formData) []))
    as [e|stepsData] eqn:O; [discriminate|].
  cbn [requiredCurrencyRaised].
  destruct (formRequiredRaised formData >? MAX_UINT128) eqn:U; [discriminate|].
  rewrite Z.gtb_ltb in U. apply Z.ltb_ge in U.
  intros [= <-]. exists account, block, stepsData. repeat apply conj; auto.
Qed.



(** X6: with a connected wallet and a known block number, a duration of
    zero or fewer days ends in the error alert for a non-positive duration,
    and one above 152,709,948 days in the error alert for a duration beyond
    the 40-bit field; both are raised before the required amount is
    looked at. *)
Theorem handleSubmit_duration_alerts (account : string) (block : Z)
    (formData : FormValues) :
  block <> 0 ->
  (durationInDays formData <= 0 ->
   handleSubmit true (Some account) (Some block) formData
   = Alerted (ErrorAlert InvalidDuration))
  /\ (152709948 < durationInDays formData ->
      handleSubmit true (Some account) (Some block) formData
      = Alerted (ErrorAlert (DurationTooLarge (7200 * durationInDays formData)))).
Proof.
  intros B0. apply Z.eqb_neq in B0.
  unfold handleSubmit. rewrite B0. cbv zeta. rewrite blocksPerDay_value. split.
  - intros D. rewrite encode_nonpositive by lia. reflexivity.
  - intros D.
    rewrite encode_too_large by (rewrite max_block_delta_value; lia).
    reflexivity.
Qed.

Lemma handleSubmit_duration_alerts_zero :
  5000000 <> 0
  /\ handleSubmit true (Some "0xabc"%string) (Some 5000000)
       {| formCurrency := noHook; durationInDays := 0;
          userFloorPrice := 1; formRequiredRaised := Z.shiftl 1 200 |}
     = Alerted (ErrorAlert InvalidDuration).
Proof.
  split; [lia|].
  destruct (handleSubmit_duration_alerts "0xabc" 5000000
              {| formCurrency := noHook; durationInDays := 0;
                 userFloorPrice := 1; formRequiredRaised := Z.shiftl 1 200 |}
              ltac:(lia)) as [H _].
  apply H. cbn. lia.
Defined.

(** X7: the parameters the handler prepares describe one consistent
    auction: it starts 300 blocks after the current block, lasts 7200
    blocks per day and can be claimed 100 blocks after its end; the steps
    decoded from [auctionStepsData] last exactly from the start block to the
    end block and issue exactly 10,000,000 units. *)
Theorem prepared_schedule_covers_window (isConnected : bool)
    (address : option string) (currentBlock : option Z) (formData : FormValues)
    (auctionParams : AuctionParameters) :
  handleSubmit isConnected address currentBlock formData = Prepared auctionParams ->
  exists (block : Z) (steps : list Step),
    currentBlock = Some block
    /\ startBlock auctionParams = block + 300
    /\ endBlock auctionParams
       = startBlock auctionParams + 7200 * durationInDays formData
    /\ claimBlock auctionParams = endBlock auctionParams + 100
    /\ startBlock auctionParams < endBlock auctionParams < claimBlock auctionParams
    /\ Wire.decode (auctionStepsData auctionParams) = Some steps
    /\ sumBlocks steps = endBlock auctionParams - startBlock auctionParams
    /\ sumRateDuration steps = 10000000.
Proof.
  intros H.
  apply handleSubmit_prepared_inv in H
    as (account & block & stepsData & _ & _ & -> & B0 & O & U & ->).
  apply encode_success_valid in O as [V ->].
  pose proof V as D. apply days_valid_iff in D.
  exists block, (specSchedule (blocksPerDay * durationInDays formData)).
  cbn [startBlock endBlock claimBlock auctionStepsData].
  rewrite sumBlocks_specSchedule, (sumRateDuration_specSchedule _ V).
  rewrite (decode_encodeSteps _ (specSchedule_in_range _ V)).
  rewrite blocksPerDay_value. repeat apply conj; try reflexivity; lia.
Qed.

Lemma prepared_schedule_covers_window_week :
  exists (block : Z) (steps : list Step),
    Some 5000000 = Some block
    /\ 5000300 = block + 300
    /\ 5050700 = 5000300 + 7200 * 7
    /\ 5050800 = 5050700 + 100
    /\ 5000300 < 5050700 < 5050800
    /\ Wire.decode "0x0000c600000073a00000c70000005140" = Some steps
    /\ sumBlocks steps = 5050700 - 5000300
    /\ sumRateDuration steps = 10000000.
Proof.
  apply (prepared_schedule_covers_window true (Some "0xabc"%string)
           (Some 5000000)
           {| formCurrency := noHook; durationInDays := 7;
              userFloorPrice := 10000000000000;
              formRequiredRaised := 1000000000000000 |}
           {| currency := noHook;
              tokensRecipient := "0xabc";
              fundsRecipient := "0xabc";
              startBlock := 5000300;
              endBlock := 5050700;
              claimBlock := 5050800;
              tickSpacing := 100000000000;
              validationHook := noHook;
              floorPrice := 10000000000000;
              requiredCurrencyRaised := 1000000000000000;
              auctionStepsData := "0x0000c600000073a00000c70000005140" |}).
  reflexivity.
Defined.

(** X8: in the parameters the handler prepares the floor price is the
    larger of the entered price and 2^32, and the tick spacing is exactly
    one hundredth of it, rounded down, hence at least 42,949,672: the
    minimum tick spacing of 2 never comes into play.  The required amount
    is at most 2^128 - 1, both recipients are the connected account and no
    validation hook is set. *)
Theorem prepared_price_fields (isConnected : bool) (address : option string)
    (currentBlock : option Z) (formData : FormValues)
    (auctionParams : AuctionParameters) :
  handleSubmit isConnected address currentBlock formData = Prepared auctionParams ->
  floorPrice auctionParams = Z.max (userFloorPrice formData) 4294967296
  /\ tickSpacing auctionParams = floorPrice auctionParams / 100
  /\ 42949672 <= tickSpacing auctionParams
  /\ requiredCurrencyRaised auctionParams
     <= 340282366920938463463374607431768211455
  /\ address = Some (tokensRecipient auctionParams)
  /\ fundsRecipient auctionParams = tokensRecipient auctionParams
  /\ validationHook auctionParams = noHook.
Proof.
  intros H.
  apply handleSubmit_prepared_inv in H
    as (account & block & stepsData & _ & -> & _ & _ & _ & U & ->).
  cbn [floorPrice tickSpacing requiredCurrencyRaised tokensRecipient
       fundsRecipient validationHook].
  rewrite max_uint128_value in U.
  assert (floorPriceFor (userFloorPrice formData)
          = Z.max (userFloorPrice formData) 4294967296) as F.
  { unfold floorPriceFor, MIN_FLOOR_PRICE. rewrite Z.gtb_ltb.
    destruct (4294967296 <? userFloorPrice formData) eqn:L;
      [apply Z.ltb_lt in L | apply Z.ltb_ge in L]; lia. }
  rewrite F.
  assert (4294967296 <= Z.max (userFloorPrice formData) 4294967296) as Big by lia.
  set (p := Z.max (userFloorPrice formData) 4294967296) in *.
  assert (Z.quot p 100 = p / 100) as Q by (apply Z.quot_div_nonneg; lia).
  assert (42949672 <= p / 100) as T by (apply Z.div_le_lower_bound; lia).
  assert (tickSpacingFor p = p / 100) as TS.
  { unfold tickSpacingFor, MIN_TICK_SPACING. cbv zeta. rewrite Q.
    replace (p / 100 <? 2) with false by (symmetry; apply Z.ltb_ge; lia).
    reflexivity. }
  rewrite TS. repeat apply conj; try reflexivity; lia.
Qed.

Lemma prepared_price_fields_low_price :
  handleSubmit true (Some "0xabc"%string) (Some 5000000)
    {| formCurrency := noHook; durationInDays := 7;
       userFloorPrice := 1; formRequiredRaised := 0 |}
  = Prepared
      {| currency := noHook; tokensRecipient := "0xabc"; fundsRecipient := "0xabc";
         startBlock := 5000300; endBlock := 5050700; claimBlock := 5050800;
         tickSpacing := 42949672; validationHook := noHook;
         floorPrice := 4294967296; requiredCurrencyRaised := 0;
         auctionStepsData := "0x0000c600000073a00000c70000005140" |}
  /\ floorPrice
    {| currency := noHook; tokensRecipient := "0xabc"; fundsRecipient := "0xabc";
       startBlock := 5000300; endBlock := 5050700; claimBlock := 5050800;
       tickSpacing := 42949672; validationHook := noHook;
       floorPrice := 4294967296; requiredCurrencyRaised := 0;
       auctionStepsData := "0x0000c600000073a00000c70000005140" |}
  = Z.max 1 4294967296.
Proof.
  split; [reflexivity|].
  apply (prepared_price_fields true (Some "0xabc"%string) (Some 5000000)
           {| formCurrency := noHook; durationInDays := 7;
              userFloorPrice := 1; formRequiredRaised := 0 |}).
  reflexivity.
Defined.

(** X9: called on a whole number of days, as the page does, the encoder
    never produces a single step: 7200 times the number of days does not
    divide 10,000,000, so the schedule always has two steps whose rates
    differ by one, and the returned text has 34 characters (16 bytes). *)
Theorem whole_days_two_steps (days : Z) (c : Console) :
  1 <= days <= 152709948 ->
  exists (lower higher : Step) (encoded : string),
    outcome (buildSteps (blocksPerDay * days) c) = inr [lower; higher]
    /\ mps higher = mps lower + 1
    /\ blockDelta lower + blockDelta higher = 7200 * days
    /\ outcome (encodeLinearAuctionSteps (blocksPerDay * days) c) = inr encoded
    /\ String.length encoded = 34%nat
    /\ Wire.hexToBytes encoded = Some (Wire.recordOf lower ++ Wire.recordOf higher).
Proof.
  intros D. pose proof D as V. apply days_valid_iff in V.
  pose proof (days_remainder_nonzero days) as Nz. apply Z.eqb_neq in Nz.
  pose proof (specSchedule_in_range _ V) as R.
  destruct (encode_valid _ c V) as [lines E].
  assert (specSchedule (blocksPerDay * days)
          = [ {| mps := 10000000 / (blocksPerDay * days);
                 blockDelta := blocksPerDay * days
                               - 10000000 mod (blocksPerDay * days) |};
              {| mps := 10000000 / (blocksPerDay * days) + 1;
                 blockDelta := 10000000 mod (blocksPerDay * days) |} ]) as S
    by (unfold specSchedule; now rewrite Nz).
  rewrite S in *.
  do 2 eexists. exists (encodeSteps
    [ {| mps := 10000000 / (blocksPerDay * days);
         blockDelta := blocksPerDay * days - 10000000 mod (blocksPerDay * days) |};
      {| mps := 10000000 / (blocksPerDay * days) + 1;
         blockDelta := 10000000 mod (blocksPerDay * days) |} ]).
  repeat apply conj.
  - rewrite buildSteps_valid by exact V. rewrite S. reflexivity.
  - reflexivity.
  - cbn [blockDelta]. rewrite blocksPerDay_value. lia.
  - now rewrite E.
  - rewrite (encodeSteps_text _ R). cbn [String.length].
    now rewrite wordsText_length.
  - rewrite (hexToBytes_encodeSteps _ R). cbn [flat_map].
    now rewrite app_nil_r.
Qed.

Lemma whole_days_two_steps_week :
  1 <= 7 <= 152709948
  /\ exists (lower higher : Step) (encoded : string),
       outcome (buildSteps (blocksPerDay * 7) []) = inr [lower; higher]
       /\ mps higher = mps lower + 1
       /\ blockDelta lower + blockDelta higher = 7200 * 7
       /\ outcome (encodeLinearAuctionSteps (blocksPerDay * 7) []) = inr encoded
       /\ String.length encoded = 34%nat
       /\ Wire.hexToBytes encoded
          = Some (Wire.recordOf lower ++ Wire.recordOf higher).
Proof.
  split; [lia|].
  apply (whole_days_two_steps 7 []). lia.
Defined.

End Submit.

(** * The address read from the receipt *)

Section ReceiptProofs.

Import Receipt.

Variable auctionCreatedTopic : string.

Lemma sliceFrom_app (a b : string) :
  sliceFrom (String.length a) (a ++ b) = b.
Proof. induction a as [|ch a IH]; cbn; [now destruct b | exact IH]. Qed.

Lemma find_first_match (before after : list Log) (log : Log) :
  Forall (fun l => isAuctionCreated auctionCreatedTopic l = false) before ->
  isAuctionCreated auctionCreatedTopic log = true ->
  find (isAuctionCreated auctionCreatedTopic) (before ++ log :: after) = Some log.
Proof.
  intros B L. induction B as [|l before Hl _ IH]; cbn [app find].
  - now rewrite L.
  - now rewrite Hl.
Qed.

(** X10: when the first log of the receipt that carries the AuctionCreated
    topic has as its second topic a 32-byte word, written as [0x], 24 digits
    of padding and the 40 digits of an address, the page stores [0x]
    followed by exactly those 40 digits; logs of other events before it and
    all logs after it are ignored. *)
Theorem auctionAddressOf_padded_topic (before after : list Log) (log : Log)
    (padding digits : string) (others : list string) :
  Forall (fun l => isAuctionCreated auctionCreatedTopic l = false) before ->
  topics log
  = auctionCreatedTopic
      :: String "0" (String "x" (padding ++ digits)) :: others ->
  String.length padding = 24%nat ->
  String.length digits = 40%nat ->
  auctionAddressOf auctionCreatedTopic (before ++ log :: after)
  = Some (String "0" (String "x" digits))
  /\ String.length (String "0" (String "x" digits)) = 42%nat.
Proof.
  intros B T P D. split; [|cbn [String.length]; now rewrite D].
  unfold auctionAddressOf.
  rewrite (find_first_match before after log B)
    by (unfold isAuctionCreated; rewrite T; apply String.eqb_refl).
  rewrite T. cbn [nth_error].
  change (sliceFrom 26 (String "0" (String "x" (padding ++ digits))))
    with (sliceFrom 24 (padding ++ digits)).
  rewrite <- P. now rewrite sliceFrom_app.
Qed.

End ReceiptProofs.

Lemma auctionAddressOf_padded_topic_example :
  Receipt.auctionAddressOf "0xevent"
    ([ {| Receipt.topics := ["0xother"%string; "0x01"%string] |} ]
       ++ {| Receipt.topics :=
               ["0xevent"%string;
                "0x0000000000000000000000001234567890abcdef1234567890abcdef12345678"%string;
                "0x02"%string] |}
       :: [ {| Receipt.topics := ["0xevent"%string; "0x03"%string] |} ])
  = Some "0x1234567890abcdef1234567890abcdef12345678"%string
  /\ String.length "0x1234567890abcdef1234567890abcdef12345678" = 42%nat.
Proof.
  apply (auctionAddressOf_padded_topic "0xevent"
           [ {| Receipt.topics := ["0xother"%string; "0x01"%string] |} ]
           [ {| Receipt.topics := ["0xevent"%string; "0x03"%string] |} ]
           {| Receipt.topics :=
                ["0xevent"%string;
                 "0x0000000000000000000000001234567890abcdef1234567890abcdef12345678"%string;
                 "0x02"%string] |}
           "000000000000000000000000"
           "1234567890abcdef1234567890abcdef12345678"
           ["0x02"%string]).
  - repeat constructor.
  - reflexivity.
  - reflexivity.
  - reflexivity.
Defined.
